(** * ble::ConnectionParameters (features/FEATURE_BLE/ble/gap/ConnectionParameters.h)

    A shallow embedding of the class: its fixed-size per-PHY arrays, the
    enabled flags, the toggle procedure with its conditional exchange of the
    2M and CODED slots, the setters and the array accessors, followed by the
    properties the specification states about them. *)

From Stdlib Require Import ZArith List Bool String Lia.
Import ListNotations.
Open Scope Z_scope.

(** ** Outcomes of a call

    A member function either returns, or stops in a failed assertion, or
    indexes an array outside its bounds (undefined behaviour in C++). *)

Inductive result (A : Type) : Type :=
| Ok (a : A)
| AssertFailed
| OutOfBounds.

Arguments Ok {A} a.
Arguments AssertFailed {A}.
Arguments OutOfBounds {A}.

Definition bind {A B : Type} (m : result A) (k : A -> result B) : result B :=
  match m with
  | Ok a => k a
  | AssertFailed => AssertFailed
  | OutOfBounds => OutOfBounds
  end.

Notation "x <- m ;; k" := (bind m (fun x => k))
  (at level 61, m at next level, right associativity).
Notation "' pat <- m ;; k" := (bind m (fun x => match x with pat => k end))
  (at level 61, pat pattern, m at next level, right associativity).

(** ** Machine integers *)

Definition uint8_t := Z.
Definition uint16_t := Z.

Definition to_uint8 (z : Z) : uint8_t := z mod 256.

(** ** Arrays of MAX_PARAM_PHYS = 3 elements *)

Definition MAX_PARAM_PHYS : uint8_t := 3.

Record array3 (A : Type) : Type := mk_array3 { at0 : A; at1 : A; at2 : A }.

Arguments mk_array3 {A} _ _ _.
Arguments at0 {A} _.
Arguments at1 {A} _.
Arguments at2 {A} _.

(** [a[i]] as an rvalue. *)
Definition aget {A : Type} (a : array3 A) (i : Z) : result A :=
  match i with
  | 0 => Ok (at0 a)
  | 1 => Ok (at1 a)
  | 2 => Ok (at2 a)
  | _ => OutOfBounds
  end.

(** [a[i] = v]. *)
Definition aset {A : Type} (a : array3 A) (i : Z) (v : A) : result (array3 A) :=
  match i with
  | 0 => Ok (mk_array3 v (at1 a) (at2 a))
  | 1 => Ok (mk_array3 (at0 a) v (at2 a))
  | 2 => Ok (mk_array3 (at0 a) (at1 a) v)
  | _ => OutOfBounds
  end.

(** A pointer into one of the arrays: [&a[off]].  Forming it reads nothing. *)
Record pointer : Type := mk_pointer { base : array3 uint16_t; off : Z }.

(** [p[k]]. *)
Definition deref (p : pointer) (k : Z) : result uint16_t :=
  aget (base p) (off p + k).

(** The first [n] elements behind [p], as the consumer of an accessor reads
    them. *)
Fixpoint read_from (p : pointer) (k : Z) (n : nat) : result (list uint16_t) :=
  match n with
  | O => Ok []
  | S n' =>
      v <- deref p k ;;
      vs <- read_from p (k + 1) n' ;;
      Ok (v :: vs)
  end.

Definition read_array (p : pointer) (count : Z) : result (list uint16_t) :=
  read_from p 0 (Z.to_nat count).

Module ble.

(** ** What ble/BLETypes.h and mbed_assert.h provide *)

(** Modelled from the spec: [ble::phy_t] is declared in ble/BLETypes.h, which
    is not among the sources.  The PHY identifier is one of 1M, 2M and Coded
    and maps to the fixed storage slot index 0, 1 and 2 respectively. *)
Inductive phy_t : Type := LE_1M | LE_2M | LE_CODED.

Definition phy_value (phy : phy_t) : uint8_t :=
  match phy with
  | LE_1M => 0
  | LE_2M => 1
  | LE_CODED => 2
  end.

Definition phy_eqb (a b : phy_t) : bool :=
  match a, b with
  | LE_1M, LE_1M | LE_2M, LE_2M | LE_CODED, LE_CODED => true
  | _, _ => false
  end.

(** Modelled from the spec: [ble::phy_set_t] is declared in ble/BLETypes.h.
    It is built from one boolean per PHY and its value is a bitmask with the
    fixed assignment bit 0 = 1M, bit 1 = 2M, bit 2 = Coded. *)
Record phy_set_t : Type := mk_phy_set { phy_set_value : uint8_t }.

Definition phy_set (phy_1m phy_2m phy_coded : bool) : phy_set_t :=
  mk_phy_set
    (to_uint8
       (Z.lor (Z.lor (Z.shiftl (Z.b2z phy_1m) 0) (Z.shiftl (Z.b2z phy_2m) 1))
              (Z.shiftl (Z.b2z phy_coded) 2))).

(** Modelled from the spec: the two scalar enumerations of ble/BLETypes.h are
    opaque; only their default members are named (address type "public",
    filter policy "ignore filter list").  Any other member is kept as its
    numeric code. *)
Inductive own_address_type_t : Type :=
| PUBLIC
| OTHER_ADDRESS_TYPE (code : Z).

Inductive scanning_policy_mode_t : Type :=
| SCAN_POLICY_IGNORE_WHITELIST
| OTHER_SCAN_POLICY (code : Z).

(** Modelled from the spec: MBED_ASSERT comes from mbed_assert.h.  An
    assertion halts execution when its expression evaluates to false and
    does nothing otherwise. *)
Definition MBED_ASSERT (expr : bool) : result unit :=
  if expr then Ok tt else AssertFailed.

(** A string literal used as a condition: the array decays to a pointer to
    its first character, which is never null. *)
Definition literal_as_condition (_ : string) : bool := true.

(** ** The class *)

(** The time and count arguments ([ble::scan_interval_t], [conn_interval_t],
    [slave_latency_t], [supervision_timeout_t], [conn_event_length_t]) are
    validated value types with a [value()] accessor yielding the [uint16_t]
    that is stored; the setters below take that value. *)

Record ConnectionParameters : Type := mk_ConnectionParameters {
  _filterPolicy : scanning_policy_mode_t;
  _ownAddressType : own_address_type_t;
  _scanInterval : array3 uint16_t;
  _scanWindow : array3 uint16_t;
  _minConnectionInterval : array3 uint16_t;
  _maxConnectionInterval : array3 uint16_t;
  _slaveLatency : array3 uint16_t;
  _connectionSupervisionTimeout : array3 uint16_t;
  _minEventLength : array3 uint16_t;
  _maxEventLength : array3 uint16_t;
  _enabledPhy : array3 bool
}.

(** Member-wise assignment. *)
Definition with_filterPolicy v (this : ConnectionParameters) :=
  let 'mk_ConnectionParameters _ oa si sw mi ma sl st me xe en := this in
  mk_ConnectionParameters v oa si sw mi ma sl st me xe en.
Definition with_ownAddressType v (this : ConnectionParameters) :=
  let 'mk_ConnectionParameters fp _ si sw mi ma sl st me xe en := this in
  mk_ConnectionParameters fp v si sw mi ma sl st me xe en.
Definition with_scanInterval v (this : ConnectionParameters) :=
  let 'mk_ConnectionParameters fp oa _ sw mi ma sl st me xe en := this in
  mk_ConnectionParameters fp oa v sw mi ma sl st me xe en.
Definition with_scanWindow v (this : ConnectionParameters) :=
  let 'mk_ConnectionParameters fp oa si _ mi ma sl st me xe en := this in
  mk_ConnectionParameters fp oa si v mi ma sl st me xe en.
Definition with_minConnectionInterval v (this : ConnectionParameters) :=
  let 'mk_ConnectionParameters fp oa si sw _ ma sl st me xe en := this in
  mk_ConnectionParameters fp oa si sw v ma sl st me xe en.
Definition with_maxConnectionInterval v (this : ConnectionParameters) :=
  let 'mk_ConnectionParameters fp oa si sw mi _ sl st me xe en := this in
  mk_ConnectionParameters fp oa si sw mi v sl st me xe en.
Definition with_slaveLatency v (this : ConnectionParameters) :=
  let 'mk_ConnectionParameters fp oa si sw mi ma _ st me xe en := this in
  mk_ConnectionParameters fp oa si sw mi ma v st me xe en.
Definition with_connectionSupervisionTimeout v (this : ConnectionParameters) :=
  let 'mk_ConnectionParameters fp oa si sw mi ma sl _ me xe en := this in
  mk_ConnectionParameters fp oa si sw mi ma sl v me xe en.
Definition with_minEventLength v (this : ConnectionParameters) :=
  let 'mk_ConnectionParameters fp oa si sw mi ma sl st _ xe en := this in
  mk_ConnectionParameters fp oa si sw mi ma sl st v xe en.
Definition with_maxEventLength v (this : ConnectionParameters) :=
  let 'mk_ConnectionParameters fp oa si sw mi ma sl st me _ en := this in
  mk_ConnectionParameters fp oa si sw mi ma sl st me v en.
Definition with_enabledPhy v (this : ConnectionParameters) :=
  let 'mk_ConnectionParameters fp oa si sw mi ma sl st me xe _ := this in
  mk_ConnectionParameters fp oa si sw mi ma sl st me xe v.

(** The eight parameter series. *)
Inductive series : Type :=
| ScanInterval
| ScanWindow
| MinConnectionInterval
| MaxConnectionInterval
| SlaveLatency
| ConnectionSupervisionTimeout
| MinEventLength
| MaxEventLength.

Definition all_series : list series :=
  [ScanInterval; ScanWindow; MinConnectionInterval; MaxConnectionInterval;
   SlaveLatency; ConnectionSupervisionTimeout; MinEventLength; MaxEventLength].

Definition member (k : series) (this : ConnectionParameters) : array3 uint16_t :=
  match k with
  | ScanInterval => _scanInterval this
  | ScanWindow => _scanWindow this
  | MinConnectionInterval => _minConnectionInterval this
  | MaxConnectionInterval => _maxConnectionInterval this
  | SlaveLatency => _slaveLatency this
  | ConnectionSupervisionTimeout => _connectionSupervisionTimeout this
  | MinEventLength => _minEventLength this
  | MaxEventLength => _maxEventLength this
  end.

Definition with_member (k : series) (a : array3 uint16_t)
    (this : ConnectionParameters) : ConnectionParameters :=
  match k with
  | ScanInterval => with_scanInterval a this
  | ScanWindow => with_scanWindow a this
  | MinConnectionInterval => with_minConnectionInterval a this
  | MaxConnectionInterval => with_maxConnectionInterval a this
  | SlaveLatency => with_slaveLatency a this
  | ConnectionSupervisionTimeout => with_connectionSupervisionTimeout a this
  | MinEventLength => with_minEventLength a this
  | MaxEventLength => with_maxEventLength a this
  end.

(** [_series[i]] read and [_series[i] = v]. *)
Definition load (k : series) (i : Z) (this : ConnectionParameters)
    : result uint16_t :=
  aget (member k this) i.

Definition store (k : series) (i : Z) (v : uint16_t)
    (this : ConnectionParameters) : result ConnectionParameters :=
  a <- aset (member k this) i v ;;
  Ok (with_member k a this).

Definition enabled (phy : phy_t) (this : ConnectionParameters) : result bool :=
  aget (_enabledPhy this) (phy_value phy).

(** *** Constructor *)

Definition ctor_loop_body (i : uint8_t) (this : ConnectionParameters)
    : result ConnectionParameters :=
  this <- store ScanInterval i 4 this ;;
  this <- store ScanWindow i 4 this ;;
  this <- store MinConnectionInterval i 6 this ;;
  this <- store MaxConnectionInterval i 0xC80 this ;;
  this <- store SlaveLatency i 0 this ;;
  this <- store ConnectionSupervisionTimeout i 0xC80 this ;;
  this <- store MinEventLength i 0 this ;;
  this <- store MaxEventLength i 0xFFFF this ;;
  en <- aset (_enabledPhy this) i false ;;
  Ok (with_enabledPhy en this).

(** [for (uint8_t i = 0; i < MAX_PARAM_PHYS; ++i)]: the body runs once for
    each [i] of [indices], in order. *)
Fixpoint ctor_loop (indices : list uint8_t) (this : ConnectionParameters)
    : result ConnectionParameters :=
  match indices with
  | [] => Ok this
  | i :: rest =>
      this <- ctor_loop_body i this ;;
      ctor_loop rest this
  end.

Definition ctor_indices : list uint8_t :=
  map Z.of_nat (seq 0 (Z.to_nat MAX_PARAM_PHYS)).

(** [ConnectionParameters()].  [raw] is the indeterminate content of the
    object's memory before the constructor runs. *)
Definition ConnectionParameters_new (raw : ConnectionParameters)
    : result ConnectionParameters :=
  let this := with_filterPolicy SCAN_POLICY_IGNORE_WHITELIST raw in
  let this := with_ownAddressType PUBLIC this in
  ctor_loop ctor_indices this.

(** *** Private members *)

Definition isSwapped (this : ConnectionParameters) : result bool :=
  e1 <- enabled LE_1M this ;;
  e2 <- enabled LE_2M this ;;
  ec <- enabled LE_CODED this ;;
  Ok (e1 && negb e2 && ec).

Definition swapCodedAnd2M (this : ConnectionParameters)
    : result ConnectionParameters :=
  scanInterval <- load ScanInterval (phy_value LE_2M) this ;;
  scanWindow <- load ScanWindow (phy_value LE_2M) this ;;
  minConnectionInterval <- load MinConnectionInterval (phy_value LE_2M) this ;;
  maxConnectionInterval <- load MaxConnectionInterval (phy_value LE_2M) this ;;
  slaveLatency <- load MaxConnectionInterval (phy_value LE_2M) this ;;
  connectionSupervisionTimeout <-
    load ConnectionSupervisionTimeout (phy_value LE_2M) this ;;
  minEventLength <- load MinEventLength (phy_value LE_2M) this ;;
  maxEventLength <- load MaxEventLength (phy_value LE_2M) this ;;

  v <- load ScanInterval (phy_value LE_CODED) this ;;
  this <- store ScanInterval (phy_value LE_2M) v this ;;
  v <- load ScanWindow (phy_value LE_CODED) this ;;
  this <- store ScanWindow (phy_value LE_2M) v this ;;
  v <- load MinConnectionInterval (phy_value LE_CODED) this ;;
  this <- store MinConnectionInterval (phy_value LE_2M) v this ;;
  v <- load MaxConnectionInterval (phy_value LE_CODED) this ;;
  this <- store MaxConnectionInterval (phy_value LE_2M) v this ;;
  v <- load SlaveLatency (phy_value LE_CODED) this ;;
  this <- store SlaveLatency (phy_value LE_2M) v this ;;
  v <- load ConnectionSupervisionTimeout (phy_value LE_CODED) this ;;
  this <- store ConnectionSupervisionTimeout (phy_value LE_2M) v this ;;
  v <- load MinEventLength (phy_value LE_CODED) this ;;
  this <- store MinEventLength (phy_value LE_2M) v this ;;
  v <- load MaxEventLength (phy_value LE_CODED) this ;;
  this <- store MaxEventLength (phy_value LE_2M) v this ;;

  this <- store ScanInterval (phy_value LE_CODED) scanInterval this ;;
  this <- store ScanWindow (phy_value LE_CODED) scanWindow this ;;
  this <- store MinConnectionInterval (phy_value LE_CODED)
            minConnectionInterval this ;;
  this <- store MaxConnectionInterval (phy_value LE_CODED)
            maxConnectionInterval this ;;
  this <- store SlaveLatency (phy_value LE_CODED) slaveLatency this ;;
  this <- store ConnectionSupervisionTimeout (phy_value LE_CODED)
            connectionSupervisionTimeout this ;;
  this <- store MinEventLength (phy_value LE_CODED) minEventLength this ;;
  store MaxEventLength (phy_value LE_CODED) maxEventLength this.

(** Returns the object after the toggle together with the index to use for
    the configuration elements. *)
Definition handlePhyToggle (phy : phy_t) (enable : bool)
    (this : ConnectionParameters) : result (ConnectionParameters * uint8_t) :=
  let index := phy_value phy in
  let was_swapped := false in
  let is_swapped := false in
  c <- isSwapped this ;;
  let was_swapped := if c then true else was_swapped in
  en <- aset (_enabledPhy this) (phy_value phy) enable ;;
  let this := with_enabledPhy en this in
  c <- isSwapped this ;;
  let is_swapped := if c then true else is_swapped in
  this <- (if negb (Bool.eqb was_swapped is_swapped)
           then swapCodedAnd2M this
           else Ok this) ;;
  let index :=
    if is_swapped && phy_eqb phy LE_CODED then to_uint8 (index - 1) else index in
  Ok (this, index).

Definition getFirstEnabledIndex (this : ConnectionParameters) : result uint8_t :=
  e1 <- enabled LE_1M this ;;
  if e1 then Ok 0 else
  e2 <- enabled LE_2M this ;;
  if e2 then Ok 1 else
  ec <- enabled LE_CODED this ;;
  if ec then Ok 2 else
  _ <- MBED_ASSERT
         (literal_as_condition
            "Trying to use connection parameters without any PHY defined.") ;;
  Ok 0.

(** *** Setters *)

Definition setScanParameters (scanInterval scanWindow : uint16_t) (phy : phy_t)
    (this : ConnectionParameters) : result ConnectionParameters :=
  '(this, phy_index) <- handlePhyToggle phy true this ;;
  this <- store ScanInterval phy_index scanInterval this ;;
  this <- store ScanWindow phy_index scanWindow this ;;
  Ok this.

Definition setConnectionParameters
    (minConnectionInterval maxConnectionInterval slaveLatency
     connectionSupervisionTimeout : uint16_t)
    (phy : phy_t) (minEventLength maxEventLength : uint16_t)
    (this : ConnectionParameters) : result ConnectionParameters :=
  '(this, phy_index) <- handlePhyToggle phy true this ;;
  this <- store MinConnectionInterval phy_index minConnectionInterval this ;;
  this <- store MaxConnectionInterval phy_index maxConnectionInterval this ;;
  this <- store SlaveLatency phy_index slaveLatency this ;;
  this <- store ConnectionSupervisionTimeout phy_index
            connectionSupervisionTimeout this ;;
  let minEventLength :=
    if minEventLength >? maxEventLength then maxEventLength
    else minEventLength in
  this <- store MinEventLength phy_index minEventLength this ;;
  this <- store MaxEventLength phy_index maxEventLength this ;;
  Ok this.

Definition setOwnAddressType (ownAddress : own_address_type_t)
    (this : ConnectionParameters) : result ConnectionParameters :=
  Ok (with_ownAddressType ownAddress this).

Definition setFilterPolicy (filterPolicy : scanning_policy_mode_t)
    (this : ConnectionParameters) : result ConnectionParameters :=
  Ok (with_filterPolicy filterPolicy this).

Definition togglePhy (phy1M phy2M phyCoded : bool)
    (this : ConnectionParameters) : result ConnectionParameters :=
  '(this, _) <- handlePhyToggle LE_1M phy1M this ;;
  '(this, _) <- handlePhyToggle LE_2M phy2M this ;;
  '(this, _) <- handlePhyToggle LE_CODED phyCoded this ;;
  Ok this.

Definition disablePhy (phy : phy_t) (this : ConnectionParameters)
    : result ConnectionParameters :=
  '(this, _) <- handlePhyToggle phy false this ;;
  Ok this.

Definition enablePhy (phy : phy_t) (this : ConnectionParameters)
    : result ConnectionParameters :=
  '(this, _) <- handlePhyToggle phy true this ;;
  Ok this.

(** *** Getters *)

Definition getOwnAddressType (this : ConnectionParameters) : own_address_type_t :=
  _ownAddressType this.

Definition getFilterPolicy (this : ConnectionParameters) : scanning_policy_mode_t :=
  _filterPolicy this.

Definition getNumberOfEnabledPhys (this : ConnectionParameters) : result uint8_t :=
  e1 <- enabled LE_1M this ;;
  e2 <- enabled LE_2M this ;;
  ec <- enabled LE_CODED this ;;
  Ok (to_uint8 (Z.b2z e1 * 1 + Z.b2z e2 * 1 + Z.b2z ec * 1)).

Definition getPhySet (this : ConnectionParameters) : result uint8_t :=
  e1 <- enabled LE_1M this ;;
  e2 <- enabled LE_2M this ;;
  ec <- enabled LE_CODED this ;;
  let set := phy_set e1 e2 ec in
  Ok (phy_set_value set).

Definition getScanIntervalArray (this : ConnectionParameters) : result pointer :=
  i <- getFirstEnabledIndex this ;; Ok (mk_pointer (_scanInterval this) i).

Definition getScanWindowArray (this : ConnectionParameters) : result pointer :=
  i <- getFirstEnabledIndex this ;; Ok (mk_pointer (_scanWindow this) i).

Definition getMinConnectionIntervalArray (this : ConnectionParameters)
    : result pointer :=
  i <- getFirstEnabledIndex this ;;
  Ok (mk_pointer (_minConnectionInterval this) i).

Definition getMaxConnectionIntervalArray (this : ConnectionParameters)
    : result pointer :=
  i <- getFirstEnabledIndex this ;;
  Ok (mk_pointer (_maxConnectionInterval this) i).

Definition getSlaveLatencyArray (this : ConnectionParameters) : result pointer :=
  i <- getFirstEnabledIndex this ;; Ok (mk_pointer (_slaveLatency this) i).

Definition getConnectionSupervisionTimeoutArray (this : ConnectionParameters)
    : result pointer :=
  i <- getFirstEnabledIndex this ;;
  Ok (mk_pointer (_connectionSupervisionTimeout this) i).

Definition getMinEventLengthArray (this : ConnectionParameters) : result pointer :=
  i <- getFirstEnabledIndex this ;; Ok (mk_pointer (_minEventLength this) i).

Definition getMaxEventLengthArray (this : ConnectionParameters) : result pointer :=
  i <- getFirstEnabledIndex this ;; Ok (mk_pointer (_maxEventLength this) i).

End ble.

Import ble.

(** ** The object as its clients drive and read it *)

(** One call of the public interface. *)
Inductive call : Type :=
| SetScanParameters (scanInterval scanWindow : uint16_t) (phy : phy_t)
| SetConnectionParameters
    (minConnectionInterval maxConnectionInterval slaveLatency
     connectionSupervisionTimeout : uint16_t)
    (phy : phy_t) (minEventLength maxEventLength : uint16_t)
| SetOwnAddressType (ownAddress : own_address_type_t)
| SetFilterPolicy (filterPolicy : scanning_policy_mode_t)
| TogglePhy (phy1M phy2M phyCoded : bool)
| DisablePhy (phy : phy_t)
| EnablePhy (phy : phy_t).

Definition exec (c : call) (this : ConnectionParameters)
    : result ConnectionParameters :=
  match c with
  | SetScanParameters si sw phy => setScanParameters si sw phy this
  | SetConnectionParameters mi ma sl st phy me xe =>
      setConnectionParameters mi ma sl st phy me xe this
  | SetOwnAddressType a => setOwnAddressType a this
  | SetFilterPolicy f => setFilterPolicy f this
  | TogglePhy b1 b2 bc => togglePhy b1 b2 bc this
  | DisablePhy phy => disablePhy phy this
  | EnablePhy phy => enablePhy phy this
  end.

(** A chain of calls, leftmost first. *)
Fixpoint run (cs : list call) (this : ConnectionParameters)
    : result ConnectionParameters :=
  match cs with
  | [] => Ok this
  | c :: cs' => this <- exec c this ;; run cs' this
  end.

Definition fill {A : Type} (v : A) : array3 A := mk_array3 v v v.

(** The freshly constructed object. *)
Definition fresh : ConnectionParameters :=
  mk_ConnectionParameters SCAN_POLICY_IGNORE_WHITELIST PUBLIC
    (fill 4) (fill 4) (fill 6) (fill 0xC80) (fill 0) (fill 0xC80)
    (fill 0) (fill 0xFFFF) (fill false).

Definition reachable (s : ConnectionParameters) : Prop :=
  exists cs, run cs fresh = Ok s.

(** The accessor of each series. *)
Definition getArray (k : series) : ConnectionParameters -> result pointer :=
  match k with
  | ScanInterval => getScanIntervalArray
  | ScanWindow => getScanWindowArray
  | MinConnectionInterval => getMinConnectionIntervalArray
  | MaxConnectionInterval => getMaxConnectionIntervalArray
  | SlaveLatency => getSlaveLatencyArray
  | ConnectionSupervisionTimeout => getConnectionSupervisionTimeoutArray
  | MinEventLength => getMinEventLengthArray
  | MaxEventLength => getMaxEventLengthArray
  end.

(** What the transport layer reads of series [k]: the accessor's pointer,
    for [getNumberOfEnabledPhys()] elements. *)
Definition compacted_view (k : series) (this : ConnectionParameters)
    : result (list uint16_t) :=
  p <- getArray k this ;;
  n <- getNumberOfEnabledPhys this ;;
  read_array p n.

(** The eight views, in the order of [all_series]. *)
Fixpoint views (ks : list series) (this : ConnectionParameters)
    : result (list (list uint16_t)) :=
  match ks with
  | [] => Ok []
  | k :: ks' =>
      v <- compacted_view k this ;;
      vs <- views ks' this ;;
      Ok (v :: vs)
  end.

Definition compacted_views (this : ConnectionParameters)
    : result (list (list uint16_t)) :=
  views all_series this.

(** ** The specification's reading of the object

    Section 3 and 4 of the specification describe the object by the values
    each PHY currently has, whatever slot holds them. *)
Module Spec.

(** The values of the eight series for one PHY. *)
Record params : Type := mk_params {
  scanInterval : uint16_t;
  scanWindow : uint16_t;
  minConnectionInterval : uint16_t;
  maxConnectionInterval : uint16_t;
  slaveLatency : uint16_t;
  connectionSupervisionTimeout : uint16_t;
  minEventLength : uint16_t;
  maxEventLength : uint16_t
}.

Definition param (k : series) (p : params) : uint16_t :=
  match k with
  | ScanInterval => scanInterval p
  | ScanWindow => scanWindow p
  | MinConnectionInterval => minConnectionInterval p
  | MaxConnectionInterval => maxConnectionInterval p
  | SlaveLatency => slaveLatency p
  | ConnectionSupervisionTimeout => connectionSupervisionTimeout p
  | MinEventLength => minEventLength p
  | MaxEventLength => maxEventLength p
  end.

(** Defaults on construction. *)
Definition default_params : params := mk_params 4 4 6 3200 0 3200 0 65535.

(** Enabled flag and current values per PHY. *)
Record model : Type := mk_model {
  on : phy_t -> bool;
  current : phy_t -> params
}.

Definition initial : model :=
  mk_model (fun _ => false) (fun _ => default_params).

Definition upd {A : Type} (f : phy_t -> A) (phy : phy_t) (v : A) : phy_t -> A :=
  fun q => if phy_eqb q phy then v else f q.

(** Clamping rule: a requested minimum above the requested maximum is
    lowered to the maximum. *)
Definition clamp_min (minEL maxEL : uint16_t) : uint16_t :=
  if minEL >? maxEL then maxEL else minEL.

(** A series setter writes the values of its series for the PHY and enables
    the PHY; the toggles change flags only. *)
Definition step (c : call) (m : model) : model :=
  match c with
  | SetScanParameters si sw phy =>
      let p := current m phy in
      mk_model (upd (on m) phy true)
        (upd (current m) phy
           (mk_params si sw (minConnectionInterval p) (maxConnectionInterval p)
              (slaveLatency p) (connectionSupervisionTimeout p)
              (minEventLength p) (maxEventLength p)))
  | SetConnectionParameters mi ma sl st phy me xe =>
      let p := current m phy in
      mk_model (upd (on m) phy true)
        (upd (current m) phy
           (mk_params (scanInterval p) (scanWindow p) mi ma sl st
              (clamp_min me xe) xe))
  | SetOwnAddressType _ => m
  | SetFilterPolicy _ => m
  | TogglePhy b1 b2 bc =>
      mk_model (upd (upd (upd (on m) LE_1M b1) LE_2M b2) LE_CODED bc) (current m)
  | DisablePhy phy => mk_model (upd (on m) phy false) (current m)
  | EnablePhy phy => mk_model (upd (on m) phy true) (current m)
  end.

Definition steps (cs : list call) (m : model) : model :=
  fold_left (fun m c => step c m) cs m.

(** The enabled PHYs in ascending PHY order. *)
Definition enabled_phys (m : model) : list phy_t :=
  filter (on m) [LE_1M; LE_2M; LE_CODED].

(** The compacted view of a series: the enabled PHYs' current values, as if
    disabled slots did not exist. *)
Definition compacted (k : series) (m : model) : list uint16_t :=
  map (fun phy => param k (current m phy)) (enabled_phys m).

Definition compacted_all (m : model) : list (list uint16_t) :=
  map (fun k => compacted k m) all_series.

End Spec.

(** Index correction (specification, section 4.2): the Coded PHY is stored
    at slot 1 while the object is in the swapped state, every other PHY at
    its nominal slot. *)
Definition effective_slot (phy : phy_t) (this : ConnectionParameters)
    : result uint8_t :=
  c <- isSwapped this ;;
  Ok (if c && phy_eqb phy LE_CODED then 1 else phy_value phy).

(** What each setter writes into the slot it addresses, per series. *)
Definition scan_written (si sw : uint16_t) (k : series) : option uint16_t :=
  match k with
  | ScanInterval => Some si
  | ScanWindow => Some sw
  | _ => None
  end.

Definition conn_written (mi ma sl st me xe : uint16_t) (k : series)
    : option uint16_t :=
  match k with
  | ScanInterval | ScanWindow => None
  | MinConnectionInterval => Some mi
  | MaxConnectionInterval => Some ma
  | SlaveLatency => Some sl
  | ConnectionSupervisionTimeout => Some st
  | MinEventLength => Some (if me >? xe then xe else me)
  | MaxEventLength => Some xe
  end.

(** [load k j] after writing [w k] at slot [i] of the object [e]. *)
Definition load_after (w : series -> option uint16_t) (i : Z)
    (e : ConnectionParameters) (k : series) (j : Z) : result uint16_t :=
  match w k with
  | Some v => if j =? i then Ok v else load k j e
  | None => load k j e
  end.

(** Slot-wise ordering of the stored event lengths. *)
Definition event_lengths_ordered (this : ConnectionParameters) : Prop :=
  at0 (_minEventLength this) <= at0 (_maxEventLength this) /\
  at1 (_minEventLength this) <= at1 (_maxEventLength this) /\
  at2 (_minEventLength this) <= at2 (_maxEventLength this).

(** The sum of [1 << slot] over a list of PHYs. *)
Definition bit_sum (phys : list phy_t) : Z :=
  fold_right (fun phy acc => Z.shiftl 1 (phy_value phy) + acc) 0 phys.

(** The PHYs whose flag is set, in ascending order. *)
Definition enabled_list (this : ConnectionParameters) : list phy_t :=
  filter (fun phy => match enabled phy this with Ok b => b | _ => false end)
         [LE_1M; LE_2M; LE_CODED].

(** ** Slots and what they hold *)

(** The content of one slot across the eight series. *)
Definition pick {A : Type} (i : Z) (a : array3 A) : A :=
  match i with
  | 0 => at0 a
  | 1 => at1 a
  | _ => at2 a
  end.

Definition slot (i : Z) (this : ConnectionParameters) : Spec.params :=
  Spec.mk_params
    (pick i (_scanInterval this)) (pick i (_scanWindow this))
    (pick i (_minConnectionInterval this)) (pick i (_maxConnectionInterval this))
    (pick i (_slaveLatency this)) (pick i (_connectionSupervisionTimeout this))
    (pick i (_minEventLength this)) (pick i (_maxEventLength this)).

(** Calls that configure or enable the 1M and Coded PHYs and neither touch
    2M nor disable anything. *)
Definition configures_1M_or_Coded (c : call) : bool :=
  match c with
  | SetScanParameters _ _ phy => negb (phy_eqb phy LE_2M)
  | SetConnectionParameters _ _ _ _ phy _ _ => negb (phy_eqb phy LE_2M)
  | EnablePhy phy => negb (phy_eqb phy LE_2M)
  | TogglePhy true false true => true
  | _ => false
  end.

(** While only 1M and Coded are configured, slot 0 holds the values of 1M
    and the values of Coded sit in slot 1 once both are enabled and in slot 2
    before. *)
Definition tracks_1M_Coded (s : ConnectionParameters) (m : Spec.model) : Prop :=
  _enabledPhy s = mk_array3 (Spec.on m LE_1M) false (Spec.on m LE_CODED) /\
  Spec.on m LE_2M = false /\
  slot 0 s = Spec.current m LE_1M /\
  slot (if Spec.on m LE_1M && Spec.on m LE_CODED then 1 else 2) s
    = Spec.current m LE_CODED.

(** A slot's values with the latency left out. *)
Definition forget_latency (p : Spec.params) : Spec.params :=
  Spec.mk_params
    (Spec.scanInterval p) (Spec.scanWindow p)
    (Spec.minConnectionInterval p) (Spec.maxConnectionInterval p)
    0 (Spec.connectionSupervisionTimeout p)
    (Spec.minEventLength p) (Spec.maxEventLength p).

(** Swapped state: 1M on, 2M off, Coded on. *)
Definition swapped (m : Spec.model) : bool :=
  Spec.on m LE_1M && negb (Spec.on m LE_2M) && Spec.on m LE_CODED.

(** Up to the latency, slot 0 holds the values of 1M, and slots 1 and 2 hold
    those of 2M and Coded, the other way round in the swapped state. *)
Definition tracks_but_latency (s : ConnectionParameters) (m : Spec.model)
    : Prop :=
  _enabledPhy s
    = mk_array3 (Spec.on m LE_1M) (Spec.on m LE_2M) (Spec.on m LE_CODED) /\
  forget_latency (slot 0 s) = forget_latency (Spec.current m LE_1M) /\
  forget_latency (slot (if swapped m then 2 else 1) s)
    = forget_latency (Spec.current m LE_2M) /\
  forget_latency (slot (if swapped m then 1 else 2) s)
    = forget_latency (Spec.current m LE_CODED).

(** ** Chains of calls *)

(** The address type and the filter policy a chain of calls leaves, given
    the ones it starts from: the argument of the last call of the scalar's
    setter, if there is one. *)
Fixpoint final_address (cs : list call) (a : own_address_type_t)
    : own_address_type_t :=
  match cs with
  | [] => a
  | SetOwnAddressType a' :: cs' => final_address cs' a'
  | _ :: cs' => final_address cs' a
  end.

Fixpoint final_policy (cs : list call) (f : scanning_policy_mode_t)
    : scanning_policy_mode_t :=
  match cs with
  | [] => f
  | SetFilterPolicy f' :: cs' => final_policy cs' f'
  | _ :: cs' => final_policy cs' f
  end.

(** The flags 1M on, 2M off, Coded on. *)
Definition swapped_flags (b1 b2 bc : bool) : bool := b1 && negb b2 && bc.

(** A call that neither ends in the swapped state nor passes through it:
    [togglePhy] changes its three flags one after the other. *)
Definition stays_unswapped (c : call) (m : Spec.model) : bool :=
  match c with
  | TogglePhy b1 b2 bc =>
      negb (swapped_flags b1 (Spec.on m LE_2M) (Spec.on m LE_CODED)) &&
      negb (swapped_flags b1 b2 (Spec.on m LE_CODED)) &&
      negb (swapped_flags b1 b2 bc)
  | _ => negb (swapped (Spec.step c m))
  end.

Fixpoint unswapped_chain (cs : list call) (m : Spec.model) : bool :=
  match cs with
  | [] => true
  | c :: cs' => stays_unswapped c m && unswapped_chain cs' (Spec.step c m)
  end.

(** Every slot holds the values of its own PHY, outside the swapped state. *)
Definition tracks_exactly (s : ConnectionParameters) (m : Spec.model) : Prop :=
  _enabledPhy s
    = mk_array3 (Spec.on m LE_1M) (Spec.on m LE_2M) (Spec.on m LE_CODED) /\
  swapped m = false /\
  slot 0 s = Spec.current m LE_1M /\
  slot 1 s = Spec.current m LE_2M /\
  slot 2 s = Spec.current m LE_CODED.

(** Slot 0 holds the values of 1M. *)
Definition tracks_1M (s : ConnectionParameters) (m : Spec.model) : Prop :=
  _enabledPhy s
    = mk_array3 (Spec.on m LE_1M) (Spec.on m LE_2M) (Spec.on m LE_CODED) /\
  slot 0 s = Spec.current m LE_1M.

(** An object with a different value in every cell and all three PHYs
    enabled. *)
Definition distinct_cells : ConnectionParameters :=
  mk_ConnectionParameters SCAN_POLICY_IGNORE_WHITELIST PUBLIC
    (mk_array3 10 11 12) (mk_array3 20 21 22) (mk_array3 30 31 32)
    (mk_array3 40 41 42) (mk_array3 50 51 52) (mk_array3 60 61 62)
    (mk_array3 70 71 72) (mk_array3 80 81 82) (mk_array3 true true true).

(** The position of a PHY among the enabled ones: the number of enabled
    PHYs with a smaller slot index. *)
Definition rank (phy : phy_t) (this : ConnectionParameters) : nat :=
  List.length
    (filter (fun q => phy_value q <? phy_value phy) (enabled_list this)).

(** [enablePhy] or [disablePhy], by the flag asked for. *)
Definition toggle (phy : phy_t) (enable : bool) (this : ConnectionParameters)
    : result ConnectionParameters :=
  if enable then enablePhy phy this else disablePhy phy this.

(** ** Proof tools *)

Ltac destruct_arrays s :=
  destruct s as [fp oa [si0 si1 si2] [sw0 sw1 sw2] [mi0 mi1 mi2] [ma0 ma1 ma2]
                 [sl0 sl1 sl2] [st0 st1 st2] [me0 me1 me2] [xe0 xe1 xe2]
                 [e1 e2 ec]].

Ltac destruct_state s :=
  destruct s as [fp oa [si0 si1 si2] [sw0 sw1 sw2] [mi0 mi1 mi2] [ma0 ma1 ma2]
                 [sl0 sl1 sl2] [st0 st1 st2] [me0 me1 me2] [xe0 xe1 xe2]
                 [[|] [|] [|]]].

(** Splits an index into 0, 1, 2 and the rest. *)
Ltac split_index j :=
  destruct j as [|[[?p|?p|]|[?p|?p|]|]|?p].

(** Runs the code on a state whose flags and indices are known. *)
Ltac run_code := vm_compute; reflexivity.

(** The same for the parts of a conjunction, one after the other, so that
    each part sees the states the earlier ones have determined; the first
    variant leaves the last part to the caller. *)
Ltac run_conj_but_last :=
  lazymatch goal with
  | |- _ /\ _ => split; [run_code | run_conj_but_last]
  | |- _ => idtac
  end.
Ltac run_conj := run_conj_but_last; run_code.
Ltac split_conj := repeat match goal with |- _ /\ _ => split end.

(** Close the tracking invariants after a call has been run: flags first,
    then the values of each PHY. *)
Ltac tracks_goal E1 Ec H2 H0 Hc :=
  unfold tracks_1M_Coded, slot; cbn;
  rewrite ?E1, ?Ec, ?H2; cbn;
  rewrite <- ?H0, <- ?Hc; cbn;
  split_conj; reflexivity.

Ltac tracks_but_latency_goal E1 E2 Ec C0 C1 C2 :=
  unfold tracks_but_latency, swapped, slot, forget_latency; cbn;
  rewrite ?E1, ?E2, ?Ec; cbn;
  rewrite ?C0, ?C1, ?C2; cbn;
  split_conj; reflexivity.

Ltac tracks_exactly_goal E1 E2 Ec H0 H1 H2 :=
  unfold tracks_exactly, swapped, slot; cbn;
  rewrite ?E1, ?E2, ?Ec; cbn;
  rewrite <- ?H0, <- ?H1, <- ?H2; cbn;
  split_conj; reflexivity.

Ltac tracks_1M_goal E1 E2 Ec H0 :=
  unfold tracks_1M, slot; cbn;
  rewrite ?E1, ?E2, ?Ec; cbn;
  rewrite <- ?H0; cbn;
  split_conj; reflexivity.

(** ** Totality *)

Lemma ctor_builds_fresh (raw : ConnectionParameters) :
  ConnectionParameters_new raw = Ok fresh.
Proof. destruct_arrays raw. run_code. Qed.

Lemma swapCodedAnd2M_total (s : ConnectionParameters) :
  exists s', swapCodedAnd2M s = Ok s'.
Proof. destruct_arrays s. eexists. run_code. Qed.

Lemma handlePhyToggle_total (phy : phy_t) (b : bool) (s : ConnectionParameters) :
  exists s' i, handlePhyToggle phy b s = Ok (s', i) /\ 0 <= i <= 2.
Proof.
  destruct_state s; destruct phy, b; do 2 eexists;
    (split; [run_code | vm_compute; split; discriminate]).
Qed.

Lemma setConnectionParameters_total mi ma sl st phy me xe s :
  exists s', setConnectionParameters mi ma sl st phy me xe s = Ok s'.
Proof.
  unfold setConnectionParameters.
  destruct (handlePhyToggle_total phy true s) as (s1 & i & E & Hi).
  rewrite E. cbn [bind].
  assert (Hc : i = 0 \/ i = 1 \/ i = 2) by lia.
  destruct_arrays s1.
  destruct Hc as [ -> | [ -> | -> ] ]; eexists; reflexivity.
Qed.

Lemma exec_total (c : call) (s : ConnectionParameters) :
  exists s', exec c s = Ok s'.
Proof.
  destruct c as [si sw phy|mi ma sl st phy me xe|a|f|b1 b2 bc|phy|phy];
    try (eexists; reflexivity).
  - destruct_state s; destruct phy; eexists; run_code.
  - apply setConnectionParameters_total.
  - destruct_state s; destruct b1, b2, bc; eexists; run_code.
  - destruct_state s; destruct phy; eexists; run_code.
  - destruct_state s; destruct phy; eexists; run_code.
Qed.

Lemma run_total (cs : list call) (s : ConnectionParameters) :
  exists s', run cs s = Ok s'.
Proof.
  revert s. induction cs as [|c cs IH]; intros s.
  - exists s. reflexivity.
  - destruct (exec_total c s) as [s1 E]. destruct (IH s1) as [s2 R].
    exists s2. simpl. rewrite E. exact R.
Qed.

(** ** The toggle procedure *)

(** The index [handlePhyToggle] returns is the effective slot of the PHY in
    the object it leaves behind, whenever the PHY ends up enabled. *)
Lemma handlePhyToggle_index (phy : phy_t) (s s' : ConnectionParameters) (i : Z) :
  handlePhyToggle phy true s = Ok (s', i) -> effective_slot phy s' = Ok i.
Proof.
  destruct_state s; destruct phy; vm_compute; intros H; inversion H; reflexivity.
Qed.

(** C10: toggling a PHY to the value its flag already has returns the very
    same object (no flag changes, no exchange of slots, no store), so
    [enablePhy] on an enabled PHY and [disablePhy] on a disabled one are
    no-ops, and both are idempotent from any state. *)
Theorem toggle_to_current_value_is_noop
    (s : ConnectionParameters) (phy : phy_t) (b : bool) :
  enabled phy s = Ok b ->
  (exists i, handlePhyToggle phy b s = Ok (s, i)) /\
  (if b then enablePhy phy s else disablePhy phy s) = Ok s /\
  (s1 <- enablePhy phy s ;; enablePhy phy s1) = enablePhy phy s /\
  (s1 <- disablePhy phy s ;; disablePhy phy s1) = disablePhy phy s.
Proof.
  intros H.
  destruct_state s; destruct phy, b; vm_compute in H; try discriminate H;
    (split; [eexists; run_code | run_conj]).
Qed.

Lemma toggle_to_current_value_is_noop_witness :
  (if true then enablePhy LE_CODED
                  {| _filterPolicy := SCAN_POLICY_IGNORE_WHITELIST;
                     _ownAddressType := PUBLIC;
                     _scanInterval := mk_array3 1 2 3;
                     _scanWindow := mk_array3 4 5 6;
                     _minConnectionInterval := mk_array3 7 8 9;
                     _maxConnectionInterval := mk_array3 10 11 12;
                     _slaveLatency := mk_array3 13 14 15;
                     _connectionSupervisionTimeout := mk_array3 16 17 18;
                     _minEventLength := mk_array3 19 20 21;
                     _maxEventLength := mk_array3 22 23 24;
                     _enabledPhy := mk_array3 true false true |}
   else AssertFailed)
  = Ok {| _filterPolicy := SCAN_POLICY_IGNORE_WHITELIST;
          _ownAddressType := PUBLIC;
          _scanInterval := mk_array3 1 2 3;
          _scanWindow := mk_array3 4 5 6;
          _minConnectionInterval := mk_array3 7 8 9;
          _maxConnectionInterval := mk_array3 10 11 12;
          _slaveLatency := mk_array3 13 14 15;
          _connectionSupervisionTimeout := mk_array3 16 17 18;
          _minEventLength := mk_array3 19 20 21;
          _maxEventLength := mk_array3 22 23 24;
          _enabledPhy := mk_array3 true false true |}.
Proof.
  refine (proj1 (proj2 (toggle_to_current_value_is_noop _ LE_CODED true _))).
  reflexivity.
Defined.

(** ** The accessors *)

(** C3: no accessor ever halts.  In every state, also with no PHY enabled,
    [getFirstEnabledIndex] returns an index and each of the eight accessors
    returns a pointer; with no PHY enabled the index is 0.  The assertion
    tests a string literal, which is never false. *)
Theorem accessors_return_with_no_phy_enabled
    (s : ConnectionParameters) (k : series) :
  exists i,
    getFirstEnabledIndex s = Ok i /\
    getArray k s = Ok (mk_pointer (member k s) i) /\
    i = match enabled_list s with
        | [] => 0
        | phy :: _ => phy_value phy
        end.
Proof.
  destruct_state s; destruct k; eexists; run_conj.
Qed.

(** C5: [getPhySet] returns the sum of [1 << slot] over the enabled PHYs,
    bit [slot] of the result is the flag of the PHY with that slot, and the
    result is the same after the 2M and CODED slots are exchanged. *)
Theorem getPhySet_is_bit_sum (s : ConnectionParameters) :
  exists v,
    getPhySet s = Ok v /\
    v = bit_sum (enabled_list s) /\
    (enabled LE_1M s = Ok (Z.testbit v 0) /\
     enabled LE_2M s = Ok (Z.testbit v 1) /\
     enabled LE_CODED s = Ok (Z.testbit v 2)) /\
    exists s', swapCodedAnd2M s = Ok s' /\ getPhySet s' = Ok v.
Proof.
  destruct_state s; eexists; (split; [run_code|]); (split; [run_code|]);
    (split; [run_conj|]); eexists; run_conj.
Qed.

(** ** The series setters *)

(** C4: with a requested minimum event length above the requested maximum,
    [setConnectionParameters] returns normally and both the minimum and the
    maximum stored for the PHY equal the requested maximum. *)
Theorem inverted_event_length_is_clamped
    (s : ConnectionParameters) (phy : phy_t)
    (mi ma sl st me xe : uint16_t) :
  me > xe ->
  exists s' i,
    setConnectionParameters mi ma sl st phy me xe s = Ok s' /\
    effective_slot phy s' = Ok i /\
    load MinEventLength i s' = Ok xe /\
    load MaxEventLength i s' = Ok xe.
Proof.
  intros H.
  assert (G : (me >? xe) = true) by (apply Z.gtb_lt; lia).
  unfold setConnectionParameters. rewrite G.
  destruct_state s; destruct phy; do 2 eexists; run_conj.
Qed.

Lemma inverted_event_length_is_clamped_witness :
  exists s' i,
    setConnectionParameters 6 3200 0 3200 LE_1M 100 50 fresh = Ok s' /\
    effective_slot LE_1M s' = Ok i /\
    load MinEventLength i s' = Ok 50 /\
    load MaxEventLength i s' = Ok 50.
Proof.
  apply (inverted_event_length_is_clamped fresh LE_1M 6 3200 0 3200 100 50).
  reflexivity.
Defined.

(** C8: [setConnectionParameters] stores the requested minimum and maximum
    connection interval as given, whatever their order, while the stored
    minimum event length is the requested one lowered to the maximum. *)
Theorem connection_interval_is_not_clamped
    (s : ConnectionParameters) (phy : phy_t)
    (mi ma sl st me xe : uint16_t) :
  exists s' i,
    setConnectionParameters mi ma sl st phy me xe s = Ok s' /\
    effective_slot phy s' = Ok i /\
    load MinConnectionInterval i s' = Ok mi /\
    load MaxConnectionInterval i s' = Ok ma /\
    load MinEventLength i s' = Ok (if me >? xe then xe else me) /\
    load MaxEventLength i s' = Ok xe.
Proof.
  unfold setConnectionParameters. destruct (me >? xe);
    destruct_state s; destruct phy; do 2 eexists; run_conj.
Qed.

(** C7: a series setter leaves the object that [enablePhy] on the same PHY
    would leave, except that the slot of that PHY (slot 1 for Coded in the
    swapped state, the nominal slot otherwise) holds the given values in the
    series the setter covers; the flag of the PHY is set. *)
Theorem setter_writes_slot_and_enables
    (s : ConnectionParameters) (phy : phy_t) :
  (forall si sw, exists e s' i,
      enablePhy phy s = Ok e /\
      setScanParameters si sw phy s = Ok s' /\
      effective_slot phy s' = Ok i /\
      enabled phy s' = Ok true /\
      _enabledPhy s' = _enabledPhy e /\
      _filterPolicy s' = _filterPolicy s /\
      _ownAddressType s' = _ownAddressType s /\
      forall k j, load k j s' = load_after (scan_written si sw) i e k j) /\
  (forall mi ma sl st me xe, exists e s' i,
      enablePhy phy s = Ok e /\
      setConnectionParameters mi ma sl st phy me xe s = Ok s' /\
      effective_slot phy s' = Ok i /\
      enabled phy s' = Ok true /\
      _enabledPhy s' = _enabledPhy e /\
      _filterPolicy s' = _filterPolicy s /\
      _ownAddressType s' = _ownAddressType s /\
      forall k j,
        load k j s' = load_after (conn_written mi ma sl st me xe) i e k j).
Proof.
  split.
  - intros si sw.
    destruct_state s; destruct phy; do 3 eexists;
      run_conj_but_last;
      intros k j; destruct k; split_index j; run_code.
  - intros mi ma sl st me xe.
    unfold setConnectionParameters, conn_written. destruct (me >? xe);
    destruct_state s; destruct phy; do 3 eexists;
      run_conj_but_last;
      intros k j; destruct k; split_index j; run_code.
Qed.

(** ** Ordering of the stored event lengths *)

Lemma fresh_ordered : event_lengths_ordered fresh.
Proof. unfold event_lengths_ordered; simpl; lia. Qed.

Lemma swapCodedAnd2M_ordered (s s' : ConnectionParameters) :
  swapCodedAnd2M s = Ok s' -> event_lengths_ordered s -> event_lengths_ordered s'.
Proof.
  destruct_arrays s. vm_compute. intros H; inversion H; subst; clear H.
  tauto.
Qed.

Lemma handlePhyToggle_ordered phy b (s s' : ConnectionParameters) (i : Z) :
  handlePhyToggle phy b s = Ok (s', i) ->
  event_lengths_ordered s -> event_lengths_ordered s'.
Proof.
  destruct_state s; destruct phy, b; vm_compute;
    intros H; inversion H; subst; clear H; tauto.
Qed.

Lemma store_ordered (k : series) (i : Z) (v : uint16_t)
    (s s' : ConnectionParameters) :
  store k i v s = Ok s' ->
  k <> MinEventLength -> k <> MaxEventLength ->
  event_lengths_ordered s -> event_lengths_ordered s'.
Proof.
  intros H Hmin Hmax. destruct_arrays s.
  destruct k; try congruence; split_index i; vm_compute in H;
    try discriminate H; inversion H; subst; clear H; auto.
Qed.

Lemma setConnectionParameters_ordered mi ma sl st phy me xe
    (s s' : ConnectionParameters) :
  setConnectionParameters mi ma sl st phy me xe s = Ok s' ->
  event_lengths_ordered s -> event_lengths_ordered s'.
Proof.
  unfold setConnectionParameters.
  destruct (handlePhyToggle phy true s) as [[s1 i]| |] eqn:T;
    cbn [bind]; try discriminate.
  intros H Hs. apply (handlePhyToggle_ordered _ _ _ _ _ T) in Hs. clear T s.
  destruct (store MinConnectionInterval i mi s1) as [s2| |] eqn:E2;
    cbn [bind] in H; try discriminate.
  apply (store_ordered _ _ _ _ _ E2) in Hs; try discriminate. clear E2 s1.
  destruct (store MaxConnectionInterval i ma s2) as [s3| |] eqn:E3;
    cbn [bind] in H; try discriminate.
  apply (store_ordered _ _ _ _ _ E3) in Hs; try discriminate. clear E3 s2.
  destruct (store SlaveLatency i sl s3) as [s4| |] eqn:E4;
    cbn [bind] in H; try discriminate.
  apply (store_ordered _ _ _ _ _ E4) in Hs; try discriminate. clear E4 s3.
  destruct (store ConnectionSupervisionTimeout i st s4) as [s5| |] eqn:E5;
    cbn [bind] in H; try discriminate.
  apply (store_ordered _ _ _ _ _ E5) in Hs; try discriminate. clear E5 s4.
  destruct_arrays s5. unfold event_lengths_ordered in Hs; simpl in Hs.
  destruct (Z.gtb_spec me xe) as [G|G];
    split_index i; vm_compute in H; try discriminate H;
    inversion H; subst; clear H;
    unfold event_lengths_ordered; simpl; lia.
Qed.

Lemma exec_ordered (c : call) (s s' : ConnectionParameters) :
  exec c s = Ok s' -> event_lengths_ordered s -> event_lengths_ordered s'.
Proof.
  destruct c as [si sw phy|mi ma sl st phy me xe|a|f|b1 b2 bc|phy|phy];
    simpl.
  - unfold setScanParameters.
    destruct (handlePhyToggle phy true s) as [[s1 i]| |] eqn:T;
      cbn [bind]; try discriminate.
    intros H Hs. apply (handlePhyToggle_ordered _ _ _ _ _ T) in Hs.
    destruct (store ScanInterval i si s1) as [s2| |] eqn:E2;
      cbn [bind] in H; try discriminate.
    apply (store_ordered _ _ _ _ _ E2) in Hs; try discriminate.
    destruct (store ScanWindow i sw s2) as [s3| |] eqn:E3;
      cbn [bind] in H; try discriminate.
    apply (store_ordered _ _ _ _ _ E3) in Hs; try discriminate.
    inversion H; subst; exact Hs.
  - apply setConnectionParameters_ordered.
  - destruct_arrays s. intros H; inversion H; subst; auto.
  - destruct_arrays s. intros H; inversion H; subst; auto.
  - unfold togglePhy.
    destruct (handlePhyToggle LE_1M b1 s) as [[s1 i1]| |] eqn:T1;
      cbn [bind]; try discriminate.
    destruct (handlePhyToggle LE_2M b2 s1) as [[s2 i2]| |] eqn:T2;
      cbn [bind]; try discriminate.
    destruct (handlePhyToggle LE_CODED bc s2) as [[s3 i3]| |] eqn:T3;
      cbn [bind]; try discriminate.
    intros H Hs; inversion H; subst.
    eauto using handlePhyToggle_ordered.
  - unfold disablePhy.
    destruct (handlePhyToggle phy false s) as [[s1 i]| |] eqn:T;
      cbn [bind]; try discriminate.
    intros H Hs; inversion H; subst. eauto using handlePhyToggle_ordered.
  - unfold enablePhy.
    destruct (handlePhyToggle phy true s) as [[s1 i]| |] eqn:T;
      cbn [bind]; try discriminate.
    intros H Hs; inversion H; subst. eauto using handlePhyToggle_ordered.
Qed.

Lemma run_ordered (cs : list call) (s s' : ConnectionParameters) :
  run cs s = Ok s' -> event_lengths_ordered s -> event_lengths_ordered s'.
Proof.
  revert s. induction cs as [|c cs IH]; intros s; simpl.
  - intros H; inversion H; subst; auto.
  - destruct (exec c s) as [s1| |] eqn:E; cbn [bind]; try discriminate.
    intros H Hs. apply (IH s1 H). exact (exec_ordered _ _ _ E Hs).
Qed.

(** C9: in every reachable state the stored minimum event length of each
    slot is at most the stored maximum of that slot; the freshly constructed
    object is such a state, and from such a state every public call and the
    exchange of the 2M and CODED slots return a state with the same
    property. *)
Theorem event_lengths_stay_ordered (s : ConnectionParameters) :
  reachable s ->
  event_lengths_ordered s /\
  (forall c, exists s', exec c s = Ok s' /\ event_lengths_ordered s') /\
  (exists s', swapCodedAnd2M s = Ok s' /\ event_lengths_ordered s').
Proof.
  intros [cs R].
  assert (Hs : event_lengths_ordered s) by exact (run_ordered _ _ _ R fresh_ordered).
  split; [exact Hs|]. split.
  - intros c. destruct (exec_total c s) as [s' E].
    exists s'. split; [exact E|]. exact (exec_ordered _ _ _ E Hs).
  - destruct (swapCodedAnd2M_total s) as [s' E].
    exists s'. split; [exact E|]. exact (swapCodedAnd2M_ordered _ _ E Hs).
Qed.

Lemma event_lengths_stay_ordered_witness :
  exists s,
    run [SetConnectionParameters 6 3200 0 3200 LE_CODED 100 50;
         EnablePhy LE_1M; DisablePhy LE_1M] fresh = Ok s /\
    event_lengths_ordered s.
Proof.
  eexists. split.
  - run_code.
  - refine (proj1 (event_lengths_stay_ordered _ _)).
    exists [SetConnectionParameters 6 3200 0 3200 LE_CODED 100 50;
            EnablePhy LE_1M; DisablePhy LE_1M].
    run_code.
Defined.

(** ** Enabling 1M and Coded only *)

Lemma fresh_tracks : tracks_1M_Coded fresh Spec.initial.
Proof. repeat split. Qed.

Lemma exec_tracks (c : call) (s : ConnectionParameters) (m : Spec.model) :
  tracks_1M_Coded s m -> configures_1M_or_Coded c = true ->
  exists s', exec c s = Ok s' /\ tracks_1M_Coded s' (Spec.step c m).
Proof.
  intros (Hen & H2 & H0 & Hc) Hok.
  destruct_arrays s. simpl in Hen. inversion Hen; subst; clear Hen.
  unfold slot in H0, Hc. simpl in H0.
  destruct m as [on cur]. simpl in *.
  destruct c as [si sw phy|mi ma sl st phy me xe|a|f|b1 b2 bc|phy|phy];
    simpl in Hok; try discriminate Hok.
  - destruct phy; try discriminate Hok;
      destruct (on LE_1M) eqn:E1, (on LE_CODED) eqn:Ec; simpl in Hc;
      (eexists; split; [run_code | tracks_goal E1 Ec H2 H0 Hc]).
  - unfold exec, setConnectionParameters, Spec.step, Spec.clamp_min.
    destruct (me >? xe);
      destruct phy; try discriminate Hok;
      destruct (on LE_1M) eqn:E1, (on LE_CODED) eqn:Ec; simpl in Hc;
      (eexists; split; [run_code | tracks_goal E1 Ec H2 H0 Hc]).
  - destruct b1, b2, bc; try discriminate Hok;
      destruct (on LE_1M) eqn:E1, (on LE_CODED) eqn:Ec; simpl in Hc;
      (eexists; split; [run_code | tracks_goal E1 Ec H2 H0 Hc]).
  - destruct phy; try discriminate Hok;
      destruct (on LE_1M) eqn:E1, (on LE_CODED) eqn:Ec; simpl in Hc;
      (eexists; split; [run_code | tracks_goal E1 Ec H2 H0 Hc]).
Qed.

Lemma run_tracks (cs : list call) (s : ConnectionParameters) (m : Spec.model) :
  tracks_1M_Coded s m -> forallb configures_1M_or_Coded cs = true ->
  exists s', run cs s = Ok s' /\ tracks_1M_Coded s' (Spec.steps cs m).
Proof.
  revert s m. induction cs as [|c cs IH]; intros s m Hs Hok.
  - exists s. split; [reflexivity | exact Hs].
  - simpl in Hok. apply andb_prop in Hok. destruct Hok as [Hc Hcs].
    destruct (exec_tracks c s m Hs Hc) as (s1 & E & H1).
    destruct (IH s1 (Spec.step c m) H1 Hcs) as (s2 & R & H2).
    exists s2. split; [|exact H2]. simpl. rewrite E. exact R.
Qed.

Lemma param_slot (k : series) (i : Z) (s : ConnectionParameters) :
  Spec.param k (slot i s) = pick i (member k s).
Proof. destruct k; reflexivity. Qed.

(** C6: from the freshly constructed object, after any chain of calls that
    only enable or configure 1M and Coded ([enablePhy], [togglePhy(true,
    false, true)], the two series setters, in any order and number) and that
    leaves both enabled, the object reports two enabled PHYs and each of the
    eight views has length 2, entry 0 being the value last set for 1M and
    entry 1 the value last set for Coded. *)
Theorem view_of_1M_and_Coded (cs : list call) :
  forallb configures_1M_or_Coded cs = true ->
  Spec.enabled_phys (Spec.steps cs Spec.initial) = [LE_1M; LE_CODED] ->
  exists s,
    run cs fresh = Ok s /\
    getNumberOfEnabledPhys s = Ok 2 /\
    forall k,
      compacted_view k s =
        Ok [Spec.param k (Spec.current (Spec.steps cs Spec.initial) LE_1M);
            Spec.param k (Spec.current (Spec.steps cs Spec.initial) LE_CODED)].
Proof.
  intros Hok Hen.
  destruct (run_tracks cs fresh Spec.initial fresh_tracks Hok)
    as (s & R & Hfl & H2 & H0 & Hc).
  exists s. split; [exact R|].
  set (m := Spec.steps cs Spec.initial) in *.
  unfold Spec.enabled_phys in Hen. simpl in Hen. rewrite H2 in Hen.
  destruct (Spec.on m LE_1M), (Spec.on m LE_CODED); try discriminate Hen.
  simpl in Hc.
  assert (V : forall k, compacted_view k s
                        = Ok [pick 0 (member k s); pick 1 (member k s)]).
  { intros k. destruct_arrays s. simpl in Hfl. inversion Hfl; subst.
    destruct k; run_code. }
  split.
  - destruct_arrays s. simpl in Hfl. inversion Hfl; subst. run_code.
  - intros k. rewrite V, <- H0, <- Hc, !param_slot. reflexivity.
Qed.

Lemma view_of_1M_and_Coded_witness :
  exists s,
    run [SetScanParameters 10 11 LE_CODED;
         SetConnectionParameters 12 13 14 15 LE_CODED 16 17;
         SetConnectionParameters 22 23 24 25 LE_1M 26 27;
         SetScanParameters 20 21 LE_1M] fresh = Ok s /\
    getNumberOfEnabledPhys s = Ok 2 /\
    forall k,
      compacted_view k s =
        Ok [Spec.param k (Spec.mk_params 20 21 22 23 24 25 26 27);
            Spec.param k (Spec.mk_params 10 11 12 13 14 15 16 17)].
Proof.
  apply (view_of_1M_and_Coded
           [SetScanParameters 10 11 LE_CODED;
            SetConnectionParameters 12 13 14 15 LE_CODED 16 17;
            SetConnectionParameters 22 23 24 25 LE_1M 26 27;
            SetScanParameters 20 21 LE_1M]); reflexivity.
Defined.

(** ** The seven series that are exchanged correctly *)

Lemma fresh_tracks_but_latency : tracks_but_latency fresh Spec.initial.
Proof. unfold tracks_but_latency. split_conj; reflexivity. Qed.

Lemma exec_tracks_but_latency (c : call) (s : ConnectionParameters)
    (m : Spec.model) :
  tracks_but_latency s m ->
  exists s', exec c s = Ok s' /\ tracks_but_latency s' (Spec.step c m).
Proof.
  intros (Hen & H0 & H1 & H2).
  destruct_arrays s. simpl in Hen. inversion Hen; subst; clear Hen.
  destruct m as [on cur]. unfold swapped in H1, H2.
  cbn [Spec.on Spec.current] in *.
  destruct (cur LE_1M) as [a1 a2 a3 a4 a5 a6 a7 a8] eqn:C0.
  destruct (cur LE_2M) as [b1 b2 b3 b4 b5 b6 b7 b8] eqn:C1.
  destruct (cur LE_CODED) as [c1 c2 c3 c4 c5 c6 c7 c8] eqn:C2.
  destruct (on LE_1M) eqn:E1, (on LE_2M) eqn:E2, (on LE_CODED) eqn:Ec;
    unfold forget_latency, slot in H0, H1, H2; simpl in H0, H1, H2;
    inversion H0; inversion H1; inversion H2; subst; clear H0 H1 H2;
    (destruct c as [si sw phy|mi ma sl st phy me xe|a|f|x1 x2 xc|phy|phy];
     [ destruct phy
     | unfold exec, setConnectionParameters, Spec.step, Spec.clamp_min;
       destruct (me >? xe); destruct phy
     | | | destruct x1, x2, xc | destruct phy | destruct phy ]);
    (eexists; split;
     [run_code | tracks_but_latency_goal E1 E2 Ec C0 C1 C2]).
Qed.

Lemma run_tracks_but_latency (cs : list call) (s : ConnectionParameters)
    (m : Spec.model) :
  tracks_but_latency s m ->
  exists s', run cs s = Ok s' /\ tracks_but_latency s' (Spec.steps cs m).
Proof.
  revert s m. induction cs as [|c cs IH]; intros s m Hs.
  - exists s. split; [reflexivity | exact Hs].
  - destruct (exec_tracks_but_latency c s m Hs) as (s1 & E & H1).
    destruct (IH s1 (Spec.step c m) H1) as (s2 & R & H2).
    exists s2. split; [|exact H2]. simpl. rewrite E. exact R.
Qed.

Lemma param_forget_latency (k : series) (p : Spec.params) :
  k <> SlaveLatency -> Spec.param k (forget_latency p) = Spec.param k p.
Proof. destruct k; intros H; try reflexivity. congruence. Qed.

Lemma tracked_param (k : series) (i : Z) (s : ConnectionParameters)
    (p : Spec.params) :
  k <> SlaveLatency ->
  forget_latency (slot i s) = forget_latency p ->
  Spec.param k p = pick i (member k s).
Proof.
  intros Hk H.
  rewrite <- (param_forget_latency k p Hk), <- H,
    (param_forget_latency k _ Hk).
  apply param_slot.
Qed.

(** X7: for every series other than the latency, the compaction contract
    holds in every reachable state: whatever chain of public calls was made
    on the constructed object, the view of the series is the list of the
    enabled PHYs' current values in ascending PHY order (the empty list when
    no PHY is enabled). *)
Lemma views_agree_except_latency (cs : list call) (k : series) :
  k <> SlaveLatency ->
  exists s,
    run cs fresh = Ok s /\
    compacted_view k s = Ok (Spec.compacted k (Spec.steps cs Spec.initial)).
Proof.
  intros Hk.
  destruct (run_tracks_but_latency cs fresh Spec.initial
              fresh_tracks_but_latency) as (s & R & Hen & H0 & H1 & H2).
  exists s. split; [exact R|].
  set (m := Spec.steps cs Spec.initial) in *.
  apply (tracked_param k _ _ _ Hk) in H0, H1, H2.
  unfold Spec.compacted, Spec.enabled_phys, swapped in *.
  cbn [filter].
  destruct_arrays s. cbn [_enabledPhy] in Hen. inversion Hen; subst; clear Hen.
  destruct (Spec.on m LE_1M), (Spec.on m LE_2M), (Spec.on m LE_CODED);
    cbn [map andb negb] in *; rewrite ?H0, ?H1, ?H2;
    destruct k; run_code.
Qed.

Lemma views_agree_except_latency_witness :
  exists s,
    run [SetConnectionParameters 6 100 7 3200 LE_CODED 0 65535;
         SetScanParameters 8 9 LE_1M; EnablePhy LE_2M; DisablePhy LE_2M;
         DisablePhy LE_1M] fresh = Ok s /\
    compacted_view MaxConnectionInterval s = Ok [100].
Proof.
  refine (views_agree_except_latency
            [SetConnectionParameters 6 100 7 3200 LE_CODED 0 65535;
             SetScanParameters 8 9 LE_1M; EnablePhy LE_2M; DisablePhy LE_2M;
             DisablePhy LE_1M] MaxConnectionInterval _).
  discriminate.
Defined.

(** ** The exchange of the 2M and CODED slots and the latency series *)

(** C1: the compacted view does not always hold the enabled PHYs' current
    values.  Coded is configured with latency 7 and maximum connection
    interval 100, then 1M is enabled and disabled again: Coded is the only
    enabled PHY, its current latency is 7, and the latency view reads 100;
    the other seven views hold Coded's current values.  [swapCodedAnd2M]
    saves the 2M slot's maximum connection interval as the latency it later
    stores into the CODED slot. *)
Theorem latency_view_after_two_exchanges :
  exists s,
    run [SetConnectionParameters 6 100 7 3200 LE_CODED 0 65535;
         EnablePhy LE_1M; DisablePhy LE_1M] fresh = Ok s /\
    getNumberOfEnabledPhys s = Ok 1 /\
    compacted_view SlaveLatency s = Ok [100] /\
    Spec.compacted SlaveLatency
      (Spec.steps [SetConnectionParameters 6 100 7 3200 LE_CODED 0 65535;
                   EnablePhy LE_1M; DisablePhy LE_1M] Spec.initial) = [7] /\
    compacted_views s
      = Ok [[4]; [4]; [6]; [100]; [100]; [3200]; [0]; [65535]] /\
    Spec.compacted_all
      (Spec.steps [SetConnectionParameters 6 100 7 3200 LE_CODED 0 65535;
                   EnablePhy LE_1M; DisablePhy LE_1M] Spec.initial)
      = [[4]; [4]; [6]; [100]; [7]; [3200]; [0]; [65535]].
Proof. eexists. run_conj. Qed.

(** C2: disabling a PHY and enabling it again does not restore the view.
    With 1M and Coded configured (latencies 5 and 7, Coded's maximum
    connection interval 200), toggling Coded off and on leaves the flags as
    they were and turns the latency view from [5; 7] into [5; 200]; with all
    three PHYs enabled on default values, toggling 2M off and on turns it
    from [0; 0; 0] into [0; 3200; 3200].  Two exchanges in a row are not the
    identity on the latency series. *)
Theorem toggle_off_and_on_changes_latency_view :
  (exists s s',
     run [SetConnectionParameters 6 100 5 3200 LE_1M 0 65535;
          SetConnectionParameters 6 200 7 3200 LE_CODED 0 65535] fresh = Ok s /\
     run [DisablePhy LE_CODED; EnablePhy LE_CODED] s = Ok s' /\
     _enabledPhy s' = _enabledPhy s /\
     compacted_view SlaveLatency s = Ok [5; 7] /\
     compacted_view SlaveLatency s' = Ok [5; 200]) /\
  (exists s s',
     run [TogglePhy true true true] fresh = Ok s /\
     run [DisablePhy LE_2M; EnablePhy LE_2M] s = Ok s' /\
     _enabledPhy s' = _enabledPhy s /\
     compacted_view SlaveLatency s = Ok [0; 0; 0] /\
     compacted_view SlaveLatency s' = Ok [0; 3200; 3200]) /\
  (exists s',
     (s1 <- swapCodedAnd2M fresh ;; swapCodedAnd2M s1) = Ok s' /\
     _slaveLatency fresh = mk_array3 0 0 0 /\
     _slaveLatency s' = mk_array3 0 3200 3200).
Proof.
  split; [|split].
  - do 2 eexists. run_conj.
  - do 2 eexists. run_conj.
  - eexists. run_conj.
Qed.

(** ** Construction *)

(** X1: whatever the memory held before, the constructor returns an object
    with the default address type and filter policy, no PHY enabled, and
    the default values in each of the three slots of every series. *)
Theorem constructor_sets_defaults (raw : ConnectionParameters) :
  exists s,
    ConnectionParameters_new raw = Ok s /\
    getOwnAddressType s = PUBLIC /\
    getFilterPolicy s = SCAN_POLICY_IGNORE_WHITELIST /\
    _enabledPhy s = mk_array3 false false false /\
    getNumberOfEnabledPhys s = Ok 0 /\
    getPhySet s = Ok 0 /\
    slot 0 s = Spec.mk_params 4 4 6 0xC80 0 0xC80 0 0xFFFF /\
    slot 1 s = Spec.mk_params 4 4 6 0xC80 0 0xC80 0 0xFFFF /\
    slot 2 s = Spec.mk_params 4 4 6 0xC80 0 0xC80 0 0xFFFF.
Proof. destruct_arrays raw. eexists. run_conj. Qed.

(** ** Bounds *)

(** X2: in every state the number of enabled PHYs is the number of flags
    set, the first enabled index plus that number does not exceed
    MAX_PARAM_PHYS, and reading that many elements from the pointer of any
    accessor stays inside the array and yields exactly that many values. *)
Theorem views_stay_inside_arrays (s : ConnectionParameters) (k : series) :
  exists i n l,
    getFirstEnabledIndex s = Ok i /\
    getNumberOfEnabledPhys s = Ok n /\
    n = Z.of_nat (List.length (enabled_list s)) /\
    0 <= i /\ i + n <= MAX_PARAM_PHYS /\
    compacted_view k s = Ok l /\
    List.length l = Z.to_nat n.
Proof.
  destruct_state s; destruct k; do 3 eexists;
    (split; [run_code|]); (split; [run_code|]); (split; [run_code|]);
    (split; [vm_compute; discriminate|]);
    (split; [vm_compute; discriminate|]);
    (split; [run_code|]); run_code.
Qed.

(** X3: from every state, every chain of public calls returns: no call
    indexes an array outside its bounds and none stops in an assertion. *)
Theorem call_chains_return (cs : list call) (s : ConnectionParameters) :
  exists s', run cs s = Ok s'.
Proof. apply run_total. Qed.

(** ** Toggles *)

(** X4: [togglePhy] leaves exactly the three flags it is given, whatever
    the flags were, keeps the two scalars, and calling it again with the
    same arguments changes nothing. *)
Theorem togglePhy_sets_the_three_flags
    (b1 b2 bc : bool) (s : ConnectionParameters) :
  exists s',
    togglePhy b1 b2 bc s = Ok s' /\
    _enabledPhy s' = mk_array3 b1 b2 bc /\
    getPhySet s' = Ok (Z.b2z b1 + 2 * Z.b2z b2 + 4 * Z.b2z bc) /\
    getNumberOfEnabledPhys s' = Ok (Z.b2z b1 + Z.b2z b2 + Z.b2z bc) /\
    _ownAddressType s' = _ownAddressType s /\
    _filterPolicy s' = _filterPolicy s /\
    togglePhy b1 b2 bc s' = Ok s'.
Proof.
  destruct_state s; destruct b1, b2, bc; eexists; run_conj.
Qed.

(** ** The two scalars *)

Lemma exec_scalars (c : call) (s s' : ConnectionParameters) :
  exec c s = Ok s' ->
  _ownAddressType s' = final_address [c] (_ownAddressType s) /\
  _filterPolicy s' = final_policy [c] (_filterPolicy s).
Proof.
  destruct c as [si sw phy|mi ma sl st phy me xe|a|f|x1 x2 xc|phy|phy].
  - destruct_state s; destruct phy; vm_compute;
      intros H; inversion H; split; reflexivity.
  - unfold exec, setConnectionParameters. destruct (me >? xe);
      destruct_state s; destruct phy; vm_compute;
      intros H; inversion H; split; reflexivity.
  - destruct_arrays s. vm_compute. intros H; inversion H; split; reflexivity.
  - destruct_arrays s. vm_compute. intros H; inversion H; split; reflexivity.
  - destruct_state s; destruct x1, x2, xc; vm_compute;
      intros H; inversion H; split; reflexivity.
  - destruct_state s; destruct phy; vm_compute;
      intros H; inversion H; split; reflexivity.
  - destruct_state s; destruct phy; vm_compute;
      intros H; inversion H; split; reflexivity.
Qed.

Lemma final_address_cons (c : call) (cs : list call) (a : own_address_type_t) :
  final_address (c :: cs) a = final_address cs (final_address [c] a).
Proof. destruct c; reflexivity. Qed.

Lemma final_policy_cons (c : call) (cs : list call)
    (f : scanning_policy_mode_t) :
  final_policy (c :: cs) f = final_policy cs (final_policy [c] f).
Proof. destruct c; reflexivity. Qed.

(** X5: after any chain of calls from any state, [getOwnAddressType] and
    [getFilterPolicy] return the argument of the last call of their setter
    in the chain, or what the object held before if the chain has none: no
    toggle, series setter or exchange of slots changes them. *)
Theorem scalars_follow_their_setters
    (cs : list call) (s : ConnectionParameters) :
  exists s',
    run cs s = Ok s' /\
    getOwnAddressType s' = final_address cs (getOwnAddressType s) /\
    getFilterPolicy s' = final_policy cs (getFilterPolicy s).
Proof.
  revert s. induction cs as [|c cs IH]; intros s.
  - exists s. repeat split.
  - destruct (exec_total c s) as [s1 E].
    destruct (exec_scalars c s s1 E) as [Ha Hf].
    destruct (IH s1) as (s2 & R & Ha2 & Hf2).
    exists s2. unfold getOwnAddressType, getFilterPolicy in *.
    rewrite final_address_cons, final_policy_cons, <- Ha, <- Hf.
    split; [simpl; rewrite E; exact R|]. split; assumption.
Qed.

(** ** The flags after a chain of calls *)

(** X6: after any chain of calls on the constructed object the flag of each
    PHY is the one its last toggle asked for (a series setter asking for
    "on"), so the PHY count, the PHY set and the swapped test are those of
    that set of PHYs; exchanges of slots do not touch the flags. *)
Theorem flags_follow_the_last_toggle (cs : list call) :
  exists s,
    run cs fresh = Ok s /\
    _enabledPhy s
      = mk_array3 (Spec.on (Spec.steps cs Spec.initial) LE_1M)
                  (Spec.on (Spec.steps cs Spec.initial) LE_2M)
                  (Spec.on (Spec.steps cs Spec.initial) LE_CODED) /\
    getNumberOfEnabledPhys s
      = Ok (Z.of_nat
              (List.length (Spec.enabled_phys (Spec.steps cs Spec.initial)))) /\
    getPhySet s
      = Ok (bit_sum (Spec.enabled_phys (Spec.steps cs Spec.initial))) /\
    isSwapped s = Ok (swapped (Spec.steps cs Spec.initial)).
Proof.
  destruct (run_tracks_but_latency cs fresh Spec.initial
              fresh_tracks_but_latency) as (s & R & Hen & _).
  exists s. split; [exact R|]. split; [exact Hen|].
  set (m := Spec.steps cs Spec.initial) in *.
  unfold Spec.enabled_phys, swapped. cbn [filter].
  destruct_arrays s. cbn [_enabledPhy] in Hen. inversion Hen; subst; clear Hen.
  destruct (Spec.on m LE_1M), (Spec.on m LE_2M), (Spec.on m LE_CODED);
    run_conj.
Qed.

(** ** The exchange of slots *)

(** X8: [swapCodedAnd2M] exchanges elements 1 and 2 of every series other
    than the latency and leaves element 0 alone; applied twice it gives
    these series back as they were.  The flags and the two scalars are
    never changed by it. *)
Theorem exchange_twice_restores_seven_series
    (s : ConnectionParameters) (k : series) :
  k <> SlaveLatency ->
  exists s1 s2,
    swapCodedAnd2M s = Ok s1 /\
    swapCodedAnd2M s1 = Ok s2 /\
    member k s1
      = mk_array3 (at0 (member k s)) (at2 (member k s)) (at1 (member k s)) /\
    member k s2 = member k s /\
    _enabledPhy s1 = _enabledPhy s /\
    _ownAddressType s1 = _ownAddressType s /\
    _filterPolicy s1 = _filterPolicy s.
Proof.
  intros Hk. destruct_arrays s.
  destruct k; try congruence; do 2 eexists; run_conj.
Qed.

Lemma exchange_twice_restores_seven_series_witness :
  exists s1 s2,
    swapCodedAnd2M distinct_cells = Ok s1 /\
    swapCodedAnd2M s1 = Ok s2 /\
    member MinEventLength s1 = mk_array3 70 72 71 /\
    member MinEventLength s2 = mk_array3 70 71 72 /\
    _enabledPhy s1 = mk_array3 true true true /\
    _ownAddressType s1 = PUBLIC /\
    _filterPolicy s1 = SCAN_POLICY_IGNORE_WHITELIST.
Proof.
  refine (exchange_twice_restores_seven_series distinct_cells MinEventLength _).
  discriminate.
Defined.

(** ** Chains that stay out of the swapped state *)

Lemma fresh_tracks_exactly : tracks_exactly fresh Spec.initial.
Proof. unfold tracks_exactly. split_conj; reflexivity. Qed.

Lemma exec_tracks_exactly (c : call) (s : ConnectionParameters)
    (m : Spec.model) :
  tracks_exactly s m -> stays_unswapped c m = true ->
  exists s', exec c s = Ok s' /\ tracks_exactly s' (Spec.step c m).
Proof.
  intros (Hen & Hsw & H0 & H1 & H2) Hok.
  destruct_arrays s. simpl in Hen. inversion Hen; subst; clear Hen.
  destruct m as [on cur].
  unfold swapped in Hsw. unfold slot in H0, H1, H2.
  cbn [Spec.on Spec.current] in *. simpl in H0, H1, H2.
  destruct (on LE_1M) eqn:E1, (on LE_2M) eqn:E2, (on LE_CODED) eqn:Ec;
    try discriminate Hsw;
    (destruct c as [si sw phy|mi ma sl st phy me xe|a|f|x1 x2 xc|phy|phy];
     [ destruct phy
     | unfold exec, setConnectionParameters, Spec.step, Spec.clamp_min;
       destruct (me >? xe); destruct phy
     | | | destruct x1, x2, xc | destruct phy | destruct phy ]);
    unfold stays_unswapped, swapped, swapped_flags in Hok; cbn in Hok;
    rewrite ?E1, ?E2, ?Ec in Hok; cbn in Hok; try discriminate Hok;
    (eexists; split;
     [run_code | tracks_exactly_goal E1 E2 Ec H0 H1 H2]).
Qed.

Lemma run_tracks_exactly (cs : list call) (s : ConnectionParameters)
    (m : Spec.model) :
  tracks_exactly s m -> unswapped_chain cs m = true ->
  exists s', run cs s = Ok s' /\ tracks_exactly s' (Spec.steps cs m).
Proof.
  revert s m. induction cs as [|c cs IH]; intros s m Hs Hok.
  - exists s. split; [reflexivity | exact Hs].
  - simpl in Hok. apply andb_prop in Hok. destruct Hok as [Hc Hcs].
    destruct (exec_tracks_exactly c s m Hs Hc) as (s1 & E & H1).
    destruct (IH s1 (Spec.step c m) H1 Hcs) as (s2 & R & H2).
    exists s2. split; [|exact H2]. simpl. rewrite E. exact R.
Qed.

(** X9: a chain of calls on the constructed object that never enters the
    swapped state (1M on, 2M off, Coded on), not even between the three
    flag changes of a [togglePhy], leaves every one of the eight views,
    the latency included, equal to the enabled PHYs' last set values in
    ascending PHY order. *)
Theorem views_exact_outside_swapped_state (cs : list call) :
  unswapped_chain cs Spec.initial = true ->
  exists s,
    run cs fresh = Ok s /\
    forall k,
      compacted_view k s = Ok (Spec.compacted k (Spec.steps cs Spec.initial)).
Proof.
  intros Hok.
  destruct (run_tracks_exactly cs fresh Spec.initial fresh_tracks_exactly Hok)
    as (s & R & Hen & Hsw & H0 & H1 & H2).
  exists s. split; [exact R|]. intros k.
  set (m := Spec.steps cs Spec.initial) in *.
  unfold Spec.compacted, Spec.enabled_phys, swapped in *.
  cbn [filter].
  destruct_arrays s. cbn [_enabledPhy] in Hen. inversion Hen; subst; clear Hen.
  destruct (Spec.on m LE_1M), (Spec.on m LE_2M), (Spec.on m LE_CODED);
    try discriminate Hsw; cbn [map];
    rewrite <- ?H0, <- ?H1, <- ?H2; destruct k; run_code.
Qed.

Lemma views_exact_outside_swapped_state_witness :
  exists s,
    run [SetConnectionParameters 6 100 7 3200 LE_CODED 0 65535;
         SetScanParameters 8 9 LE_2M; EnablePhy LE_1M; DisablePhy LE_CODED;
         SetConnectionParameters 10 20 3 40 LE_1M 5 6] fresh = Ok s /\
    forall k,
      compacted_view k s
      = Ok [Spec.param k (Spec.mk_params 4 4 10 20 3 40 5 6);
            Spec.param k (Spec.mk_params 8 9 6 3200 0 3200 0 65535)].
Proof.
  apply (views_exact_outside_swapped_state
           [SetConnectionParameters 6 100 7 3200 LE_CODED 0 65535;
            SetScanParameters 8 9 LE_2M; EnablePhy LE_1M; DisablePhy LE_CODED;
            SetConnectionParameters 10 20 3 40 LE_1M 5 6]).
  reflexivity.
Defined.

(** ** What a setter leaves in the views *)

(** X10: right after [setScanParameters] for a PHY, from any state, the
    scan interval and scan window views hold the given values at the
    position of that PHY among the enabled ones. *)
Theorem scan_values_show_at_rank
    (s : ConnectionParameters) (phy : phy_t) (si sw : uint16_t) :
  exists s' vi vw,
    setScanParameters si sw phy s = Ok s' /\
    compacted_view ScanInterval s' = Ok vi /\
    compacted_view ScanWindow s' = Ok vw /\
    nth_error vi (rank phy s') = Some si /\
    nth_error vw (rank phy s') = Some sw.
Proof.
  destruct_state s; destruct phy; do 3 eexists; run_conj.
Qed.

(** X11: right after [setConnectionParameters] for a PHY, from any state,
    the six connection views hold the given values at the position of that
    PHY among the enabled ones, the minimum event length lowered to the
    maximum when it was above it. *)
Theorem connection_values_show_at_rank
    (s : ConnectionParameters) (phy : phy_t)
    (mi ma sl st me xe : uint16_t) (k : series) :
  exists s' v,
    setConnectionParameters mi ma sl st phy me xe s = Ok s' /\
    compacted_view k s' = Ok v /\
    match conn_written mi ma sl st me xe k with
    | Some x => nth_error v (rank phy s') = Some x
    | None => True
    end.
Proof.
  unfold setConnectionParameters, conn_written. destruct (me >? xe);
    destruct_state s; destruct phy; destruct k; do 2 eexists;
    (split; [run_code|]); (split; [run_code|]);
    first [exact I | run_code].
Qed.

(** ** How calls compose *)

(** X12: a series setter overrides an earlier call of the same setter for
    the same PHY, and absorbs an [enablePhy] of that PHY before or after
    it: in each case the object is the one the last setter call alone
    returns. *)
Theorem later_setter_overrides
    (s : ConnectionParameters) (phy : phy_t) :
  (forall si sw si' sw',
      (s1 <- setScanParameters si sw phy s ;; setScanParameters si' sw' phy s1)
      = setScanParameters si' sw' phy s) /\
  (forall mi ma sl st me xe mi' ma' sl' st' me' xe',
      (s1 <- setConnectionParameters mi ma sl st phy me xe s ;;
       setConnectionParameters mi' ma' sl' st' phy me' xe' s1)
      = setConnectionParameters mi' ma' sl' st' phy me' xe' s) /\
  (forall si sw,
      (s1 <- enablePhy phy s ;; setScanParameters si sw phy s1)
      = setScanParameters si sw phy s /\
      (s1 <- setScanParameters si sw phy s ;; enablePhy phy s1)
      = setScanParameters si sw phy s) /\
  (forall mi ma sl st me xe,
      (s1 <- enablePhy phy s ;; setConnectionParameters mi ma sl st phy me xe s1)
      = setConnectionParameters mi ma sl st phy me xe s /\
      (s1 <- setConnectionParameters mi ma sl st phy me xe s ;; enablePhy phy s1)
      = setConnectionParameters mi ma sl st phy me xe s).
Proof.
  split; [|split; [|split]].
  - intros. destruct_state s; destruct phy; run_code.
  - intros. unfold setConnectionParameters.
    destruct (me >? xe), (me' >? xe');
      destruct_state s; destruct phy; run_code.
  - intros. split; destruct_state s; destruct phy; run_code.
  - intros. unfold setConnectionParameters.
    destruct (me >? xe); split; destruct_state s; destruct phy; run_code.
Qed.

(** X13: the two series setters commute when called for the same PHY: the
    scan values and the connection values of a PHY can be set in either
    order. *)
Theorem setters_of_one_phy_commute
    (s : ConnectionParameters) (phy : phy_t)
    (si sw mi ma sl st me xe : uint16_t) :
  (s1 <- setScanParameters si sw phy s ;;
   setConnectionParameters mi ma sl st phy me xe s1)
  = (s1 <- setConnectionParameters mi ma sl st phy me xe s ;;
     setScanParameters si sw phy s1).
Proof.
  unfold setConnectionParameters.
  destruct (me >? xe); destruct_state s; destruct phy; run_code.
Qed.

(** ** The 1M slot *)

Lemma fresh_tracks_1M : tracks_1M fresh Spec.initial.
Proof. unfold tracks_1M. split; reflexivity. Qed.

Lemma exec_tracks_1M (c : call) (s : ConnectionParameters) (m : Spec.model) :
  tracks_1M s m ->
  exists s', exec c s = Ok s' /\ tracks_1M s' (Spec.step c m).
Proof.
  intros (Hen & H0).
  destruct_arrays s. simpl in Hen. inversion Hen; subst; clear Hen.
  destruct m as [on cur]. unfold slot in H0.
  cbn [Spec.on Spec.current] in *. simpl in H0.
  destruct (on LE_1M) eqn:E1, (on LE_2M) eqn:E2, (on LE_CODED) eqn:Ec;
    (destruct c as [si sw phy|mi ma sl st phy me xe|a|f|x1 x2 xc|phy|phy];
     [ destruct phy
     | unfold exec, setConnectionParameters, Spec.step, Spec.clamp_min;
       destruct (me >? xe); destruct phy
     | | | destruct x1, x2, xc | destruct phy | destruct phy ]);
    (eexists; split; [run_code | tracks_1M_goal E1 E2 Ec H0]).
Qed.

Lemma run_tracks_1M (cs : list call) (s : ConnectionParameters)
    (m : Spec.model) :
  tracks_1M s m ->
  exists s', run cs s = Ok s' /\ tracks_1M s' (Spec.steps cs m).
Proof.
  revert s m. induction cs as [|c cs IH]; intros s m Hs.
  - exists s. split; [reflexivity | exact Hs].
  - destruct (exec_tracks_1M c s m Hs) as (s1 & E & H1).
    destruct (IH s1 (Spec.step c m) H1) as (s2 & R & H2).
    exists s2. split; [|exact H2]. simpl. rewrite E. exact R.
Qed.

(** X14: slot 0 is never exchanged, so after any chain of calls on the
    constructed object that leaves 1M enabled, entry 0 of each of the
    eight views, the latency included, is the value last set for 1M (the
    default if none was set). *)
Theorem first_entry_is_1M (cs : list call) (k : series) :
  Spec.on (Spec.steps cs Spec.initial) LE_1M = true ->
  exists s rest,
    run cs fresh = Ok s /\
    compacted_view k s
      = Ok (Spec.param k (Spec.current (Spec.steps cs Spec.initial) LE_1M)
            :: rest).
Proof.
  intros Hon.
  destruct (run_tracks_1M cs fresh Spec.initial fresh_tracks_1M)
    as (s & R & Hen & H0).
  set (m := Spec.steps cs Spec.initial) in *.
  exists s. rewrite <- H0, param_slot.
  destruct_arrays s. cbn [_enabledPhy] in Hen. inversion Hen; subst; clear Hen.
  destruct (Spec.on m LE_1M); try discriminate Hon.
  destruct (Spec.on m LE_2M), (Spec.on m LE_CODED);
    destruct k; eexists; (split; [exact R | run_code]).
Qed.

Lemma first_entry_is_1M_witness :
  exists s rest,
    run [SetConnectionParameters 6 100 7 3200 LE_CODED 0 65535;
         SetConnectionParameters 8 90 5 3000 LE_1M 1 2;
         DisablePhy LE_CODED; EnablePhy LE_CODED; EnablePhy LE_2M] fresh
      = Ok s /\
    compacted_view SlaveLatency s = Ok (5 :: rest).
Proof.
  refine (first_entry_is_1M
            [SetConnectionParameters 6 100 7 3200 LE_CODED 0 65535;
             SetConnectionParameters 8 90 5 3000 LE_1M 1 2;
             DisablePhy LE_CODED; EnablePhy LE_CODED; EnablePhy LE_2M]
            SlaveLatency _).
  reflexivity.
Defined.

(** ** One toggle *)

(** X15: from any state, [enablePhy] and [disablePhy] set the flag of their
    PHY and no other flag, keep the two scalars and the whole of slot 0, and
    leave all parameter storage as it was whenever the swapped test gives
    the same answer before and after. *)
Theorem toggle_changes_one_flag
    (s : ConnectionParameters) (phy : phy_t) (b : bool) :
  exists s' w w',
    toggle phy b s = Ok s' /\
    isSwapped s = Ok w /\
    isSwapped s' = Ok w' /\
    (forall q, enabled q s' = if phy_eqb q phy then Ok b else enabled q s) /\
    slot 0 s' = slot 0 s /\
    _ownAddressType s' = _ownAddressType s /\
    _filterPolicy s' = _filterPolicy s /\
    (if Bool.eqb w w' then forall k, member k s' = member k s else True).
Proof.
  destruct_state s; destruct phy, b; do 3 eexists;
    (split; [run_code|]); (split; [run_code|]); (split; [run_code|]);
    (split; [intros q; destruct q; run_code|]);
    (split; [run_code|]); (split; [run_code|]); (split; [run_code|]);
    cbn [Bool.eqb]; first [exact I | intros k; destruct k; run_code].
Qed.

(** X16: from any state, flipping the flag of a PHY and flipping it back
    restores the flags, the two scalars and, in every series other than
    the latency, all three slots. *)
Theorem toggle_round_trip_restores_seven_series
    (s : ConnectionParameters) (phy : phy_t) (b : bool) (k : series) :
  enabled phy s = Ok b ->
  k <> SlaveLatency ->
  exists s1 s2,
    toggle phy (negb b) s = Ok s1 /\
    toggle phy b s1 = Ok s2 /\
    _enabledPhy s2 = _enabledPhy s /\
    member k s2 = member k s /\
    _ownAddressType s2 = _ownAddressType s /\
    _filterPolicy s2 = _filterPolicy s.
Proof.
  intros H Hk.
  destruct_state s; destruct phy, b; vm_compute in H; try discriminate H;
    destruct k; try congruence; do 2 eexists; run_conj.
Qed.

Lemma toggle_round_trip_restores_seven_series_witness :
  exists s1 s2,
    toggle LE_2M false distinct_cells = Ok s1 /\
    toggle LE_2M true s1 = Ok s2 /\
    _enabledPhy s2 = mk_array3 true true true /\
    member MaxEventLength s2 = mk_array3 80 81 82 /\
    _ownAddressType s2 = PUBLIC /\
    _filterPolicy s2 = SCAN_POLICY_IGNORE_WHITELIST.
Proof.
  refine (toggle_round_trip_restores_seven_series
            distinct_cells LE_2M true MaxEventLength _ _).
  - reflexivity.
  - discriminate.
Defined.
